(** * Base-8192 weight codec: embedding of [optimizer.py] and [inference.py]

    The two Python files are embedded function by function.  Conventions:
    - a Python [int] that is never negative in these files is an [N];
      positions and lengths of sequences are [nat];
    - a [str] of length one is its code point ([char]), a text is a
      [list char];
    - the strings of ['0']/['1'] that the codec builds are [list bool]
      (['1'] is [true]), most significant bit first;
    - [bytes] is [list byte];
    - a dict is a [gmap];
    - a raised exception is the [Raise] branch of [result]. *)

From Stdlib Require Import NArith ZifyNat ZifyN Strings.Byte Strings.Ascii.
From stdpp Require Import gmap strings list fin_maps.

Set Warnings "-abstract-large-number".
Open Scope N_scope.

(** ** The fragment of the Python runtime the sources rely on *)

Abbreviation char := N (only parsing).

Inductive exn : Type :=
| KeyError (ch : char)
| IndexError
| ValueError.

Inductive result (A : Type) : Type :=
| Ok (a : A)
| Raise (e : exn).
Arguments Ok {A} a.
Arguments Raise {A} e.

Global Instance result_ret : MRet result := λ A, Ok.
Global Instance result_bind : MBind result := λ A B f m,
  match m with
  | Ok a => f a
  | Raise e => Raise e
  end.

(** [chr(n)] for a code point in range. *)
Definition chr (n : N) : char := n.

(** Binary digits of a positive number, most significant first. *)
Fixpoint pos_bits (p : positive) (acc : list bool) : list bool :=
  match p with
  | xH => true :: acc
  | xO q => pos_bits q (false :: acc)
  | xI q => pos_bits q (true :: acc)
  end.

(** [f"{n:b}"]: the shortest binary numeral of [n]. *)
Definition bin (n : N) : list bool :=
  match n with
  | N0 => [false]
  | Npos p => pos_bits p []
  end.

(** [f"{n:0{width}b}"]: zero-filled on the left up to [width] digits; a
    wider numeral is not truncated. *)
Definition format_b (width : nat) (n : N) : list bool :=
  let ds := bin n in
  replicate (width - length ds) false ++ ds.

(** [int(s, 2)]; the empty string is a [ValueError]. *)
Definition int2 (s : list bool) : result N :=
  match s with
  | [] => Raise ValueError
  | _ => Ok (foldl (λ acc (b : bool), 2 * acc + (if b then 1 else 0)) 0 s)
  end.

(** [range(0, stop, step)] for a positive [step]. *)
Definition range (stop step : nat) : list nat :=
  (λ k, k * step)%nat <$> seq 0 ((stop + step - 1) / step)%nat.

(** [s[i:j]] for [0 <= i <= j]; the slice is clamped at the end of [s]. *)
Definition slice {A} (s : list A) (i j : nat) : list A :=
  take (j - i) (drop i s).

(** [enumerate(l)]. *)
Definition enumerate {A} (l : list A) : list (nat * A) :=
  zip (seq 0 (length l)) l.

(** [l[i]] on a list. *)
Definition list_getitem {A} (l : list A) (i : N) : result A :=
  match l !! N.to_nat i with
  | Some x => Ok x
  | None => Raise IndexError
  end.

(** [d[k]] on a dict keyed by characters. *)
Definition dict_getitem {V} (d : gmap N V) (k : char) : result V :=
  match d !! k with
  | Some v => Ok v
  | None => Raise (KeyError k)
  end.

(** One item of [bytes(iterable)]: an int outside [range(256)] is a
    [ValueError]. *)
Definition to_byte (n : N) : result byte :=
  match Byte.of_N n with
  | Some b => Ok b
  | None => Raise ValueError
  end.

(** Exceptions of the whole pipeline: those of the codec, the ones that
    [zlib.decompress] and [pickle.loads] raise on bytes they reject, and
    those of the files: [LoadError] is whatever [np.load(npz_path)] raises
    (no such file, not an archive), [MemberError e] the exception [e] that
    reading a member of the archive raises, [WriteError] the [OSError] of
    [open(output_path, "w")] or of the write. *)
Inductive failure : Type :=
| CodecError (e : exn)
| ZlibError
| UnpicklingError
| LoadError
| MemberError (e : exn)
| WriteError.

Inductive outcome (A : Type) : Type :=
| Done (a : A)
| Failed (f : failure).
Arguments Done {A} a.
Arguments Failed {A} f.

(** A string literal as a text. *)
Definition text_of_string (s : string) : list char :=
  (λ a, N.of_nat (nat_of_ascii a)) <$> String.list_ascii_of_string s.

(** ** numpy arrays, as far as [float16_dict_from_npz] looks at them *)

Record dtype : Type := Dtype { kind : ascii; itemsize : nat }.

Definition float16 : dtype := Dtype "f" 2.
Definition float32 : dtype := Dtype "f" 4.
Definition float64 : dtype := Dtype "f" 8.
Definition int32 : dtype := Dtype "i" 4.
Definition complex64 : dtype := Dtype "c" 8.

Record ndarray (scalar : Type) : Type :=
  Ndarray { arr_dtype : dtype; shape : list nat; items : list scalar }.
Arguments Ndarray {scalar}.
Arguments arr_dtype {scalar}.
Arguments shape {scalar}.
Arguments items {scalar}.

(** A member of an [.npz] archive, as [np.load] finds it: the array stored,
    and whether its element type holds Python objects (numpy's
    [dtype.hasobject]: the object element type, or a structured one with an
    object field). *)
Record npy (scalar : Type) : Type :=
  Npy { hasobject : bool; stored : ndarray scalar }.
Arguments Npy {scalar}.
Arguments hasobject {scalar}.
Arguments stored {scalar}.

(** ** optimizer.py *)

Module Optimizer.

Definition CHINESE_CHARS : list char :=
  (λ i, chr (0x4E00 + N.of_nat i)) <$> seq 0 8192.

Definition CHAR_TO_VAL : gmap N N :=
  foldl (λ d '(i, ch), <[ch := N.of_nat i]> d) ∅ (enumerate CHINESE_CHARS).

Section Reducer.
(** The element values of an array and numpy's element-wise conversion
    between element types (for floats: IEEE rounding to the target
    width) are left abstract. *)
Context {scalar : Type}.
Variable cast : dtype → dtype → scalar → scalar.

(** [v.astype(t)]: a new array of element type [t] and the same shape,
    every element converted. *)
Definition astype (t : dtype) (v : ndarray scalar) : ndarray scalar :=
  Ndarray t (shape v) (cast (arr_dtype v) t <$> items v).

(** The comprehension of line 41 over arrays already read: [data] is the
    name-to-array mapping that [np.load(npz_path)] yields.  The whole
    function, with the load and its failures, is
    [float16_dict_from_npz_path] below. *)
Definition float16_dict_from_npz (data : gmap string (ndarray scalar))
  : gmap string (ndarray scalar) :=
  (λ v, if decide (kind (arr_dtype v) = "f"%char) then astype float16 v else v)
    <$> data.
End Reducer.

Section Loader.
(** The whole of [float16_dict_from_npz], from its argument [npz_path].
    [np.load] opens the archive and reads no member ([np_load] answers
    [None] where it raises); [data.items()] reads each member when the
    comprehension of line 41 reaches it, and with [allow_pickle] left at
    [False] numpy refuses a member whose element type holds Python objects:
    [ValueError].  The members are visited in the order of [map_to_list];
    every failure being the same [ValueError], the order does not show. *)
Context {scalar : Type}.
Variable cast : dtype → dtype → scalar → scalar.
Variable np_load : string → option (gmap string (npy scalar)).

Definition read_array (m : npy scalar) : result (ndarray scalar) :=
  if hasobject m then Raise ValueError else Ok (stored m).

Definition float16_dict_from_npz_path (npz_path : string)
  : outcome (gmap string (ndarray scalar)) :=
  match np_load npz_path with
  | None => Failed LoadError
  | Some data =>
    match mapM (λ km : string * npy scalar,
                  v ← read_array km.2;
                  mret (km.1, if decide (kind (arr_dtype v) = "f"%char)
                              then astype cast float16 v else v))
               (map_to_list data) with
    | Raise e => Failed (MemberError e)
    | Ok entries => Done (list_to_map entries)
    end
  end.
End Loader.

(** The bit string of line 55. *)
Definition byte_bits (data : list byte) : list bool :=
  mjoin ((λ byte, format_b 8 (Byte.to_N byte)) <$> data).

(** Lines 58-59. *)
Definition pad13 (bits : list bool) : list bool :=
  if decide ((length bits mod 13)%nat ≠ 0%nat)
  then bits ++ replicate (13 - length bits mod 13) false
  else bits.

Definition to_chinese_base8192 (data : list byte) : result (list char) :=
  let bits := byte_bits data in
  let bits := pad13 bits in
  chars ← mapM (λ i, v ← int2 (slice bits i (i + 13));
                     list_getitem CHINESE_CHARS v)
               (range (length bits) 13);
  mret chars.

(** The bit string of line 77. *)
Definition symbol_bits (text : list char) : result (list bool) :=
  parts ← mapM (λ ch, v ← dict_getitem CHAR_TO_VAL ch; mret (format_b 13 v)) text;
  mret (mjoin parts).

(** Line 80. *)
Definition byte_groups (bits : list bool) : list (list bool) :=
  (λ i, slice bits i (i + 8)) <$> range (length bits) 8.

(** Line 83. *)
Definition complete_groups (bytes_list : list (list bool)) : list (list bool) :=
  filter (λ b, length b = 8%nat) bytes_list.

Definition from_chinese_base8192 (text : list char) : result (list byte) :=
  bits ← symbol_bits text;
  let bytes_list := byte_groups bits in
  let bytes_list := complete_groups bytes_list in
  mapM (λ b, v ← int2 b; to_byte v) bytes_list.

Section Pipeline.
(** [pickle] and [zlib] are libraries: their four functions are parameters.
    [zlib_compress] takes the level first; [None] stands for the exception
    the library raises.  [pickle.dumps] and [zlib.compress] are taken to
    return; what [pickle.loads] returns is taken to be a mapping of arrays.
    The file system is a parameter too: a state [fs], what [np.load] finds
    in it at a path, and what writing a text to a path makes of it ([None]
    where [open] or the write raises).  The progress messages printed on the
    way are not modelled. *)
Context {scalar : Type}.
Variable cast : dtype → dtype → scalar → scalar.
Variable pickle_dumps : gmap string (ndarray scalar) → list byte.
Variable pickle_loads : list byte → option (gmap string (ndarray scalar)).
Variable zlib_compress : N → list byte → list byte.
Variable zlib_decompress : list byte → option (list byte).
Context {fs : Type}.
Variable np_load : fs → string → option (gmap string (npy scalar)).
Variable write_text : string → list char → fs → option fs.

Definition compress_model_to_chinese (npz_path output_path : string)
    (σ : fs) : outcome fs :=
  match float16_dict_from_npz_path cast (np_load σ) npz_path with
  | Failed f => Failed f
  | Done obj =>
    let raw := pickle_dumps obj in
    let compressed := zlib_compress 9 raw in
    match to_chinese_base8192 compressed with
    | Raise e => Failed (CodecError e)
    | Ok encoded =>
      match write_text output_path encoded σ with
      | None => Failed WriteError
      | Some σ' => Done σ'
      end
    end
  end.

Definition decompress_model_from_chinese (encoded : list char)
  : outcome (gmap string (ndarray scalar)) :=
  match from_chinese_base8192 encoded with
  | Raise e => Failed (CodecError e)
  | Ok compressed =>
    match zlib_decompress compressed with
    | None => Failed ZlibError
    | Some raw =>
      match pickle_loads raw with
      | None => Failed UnpicklingError
      | Some weights => Done weights
      end
    end
  end.
End Pipeline.

End Optimizer.

(** ** inference.py *)

Module Inference.

Definition CHINESE_CHARS : list char :=
  (λ i, chr (0x4E00 + N.of_nat i)) <$> seq 0 8192.

Definition CHAR_TO_VAL : gmap N N :=
  foldl (λ d '(i, ch), <[ch := N.of_nat i]> d) ∅ (enumerate CHINESE_CHARS).

Definition from_chinese_base8192 (text : list char) : result (list byte) :=
  bits ← (parts ← mapM (λ ch, v ← dict_getitem CHAR_TO_VAL ch;
                              mret (format_b 13 v)) text;
          mret (mjoin parts));
  let bytes_list := (λ i, slice bits i (i + 8)) <$> range (length bits) 8 in
  let bytes_list := filter (λ b, length b = 8%nat) bytes_list in
  mapM (λ b, v ← int2 b; to_byte v) bytes_list.

Definition ENCODED : list char := text_of_string "<YOUR_ENCODED_STRING_HERE>".

Section Pipeline.
Context {scalar : Type}.
Variable pickle_loads : list byte → option (gmap string (ndarray scalar)).
Variable zlib_decompress : list byte → option (list byte).

Definition decompress_model_from_chinese (encoded : list char)
  : outcome (gmap string (ndarray scalar)) :=
  match from_chinese_base8192 encoded with
  | Raise e => Failed (CodecError e)
  | Ok compressed =>
    match zlib_decompress compressed with
    | None => Failed ZlibError
    | Some raw =>
      match pickle_loads raw with
      | None => Failed UnpicklingError
      | Some weights => Done weights
      end
    end
  end.

(** The script's entry point, line 74. *)
Definition main : outcome (gmap string (ndarray scalar)) :=
  decompress_model_from_chinese ENCODED.
End Pipeline.

End Inference.

(** * Properties *)

(** Linear arithmetic with division and remainder by constants. *)
Ltac div_lia := zify; Z.to_euclidean_division_equations; lia.

(** ** The [result] monad *)

Section ResultEquations.
Context {A B : Type}.

Lemma result_bind_ok (f : A → result B) (a : A) : Ok a ≫= f = f a.
Proof. reflexivity. Qed.

Lemma result_bind_raise (f : A → result B) (e : exn) :
  Raise e ≫= f = Raise e.
Proof. reflexivity. Qed.

Lemma mapM_result_nil (f : A → result B) : mapM f [] = Ok [].
Proof. reflexivity. Qed.

Lemma mapM_result_cons (f : A → result B) (x : A) (l : list A) :
  mapM f (x :: l) = y ← f x; k ← mapM f l; mret (y :: k).
Proof. reflexivity. Qed.

End ResultEquations.

Section ResultLemmas.
Context {A B C : Type}.

Lemma mapM_result_fmap (g : A → B) (f : B → result C) (l : list A) :
  mapM f (g <$> l) = mapM (f ∘ g) l.
Proof.
  induction l as [|x l IH]; [done|].
  rewrite fmap_cons, !mapM_result_cons, IH. done.
Qed.

Lemma mapM_result_app (f : A → result B) (l k : list A) (l' k' : list B) :
  mapM f l = Ok l' → mapM f k = Ok k' → mapM f (l ++ k) = Ok (l' ++ k').
Proof.
  revert l'. induction l as [|x l IH]; intros l' Hl Hk.
  - injection Hl as <-. done.
  - rewrite <- app_comm_cons, mapM_result_cons.
    rewrite mapM_result_cons in Hl.
    destruct (f x) as [y|e]; [|done].
    rewrite result_bind_ok in Hl |- *.
    destruct (mapM f l) as [ys|e]; [|done].
    injection Hl as <-. rewrite (IH ys eq_refl Hk). done.
Qed.

Lemma mapM_result_ok (f : A → result B) (g : A → B) (l : list A) :
  Forall (λ x, f x = Ok (g x)) l → mapM f l = Ok (g <$> l).
Proof.
  induction 1 as [|x l Hx _ IH]; [done|].
  rewrite mapM_result_cons, Hx, IH. done.
Qed.

Lemma mapM_result_length (f : A → result B) (l : list A) (l' : list B) :
  mapM f l = Ok l' → length l' = length l.
Proof.
  revert l'. induction l as [|x l IH]; intros l' Hl.
  - injection Hl as <-. done.
  - rewrite mapM_result_cons in Hl.
    destruct (f x) as [y|e]; [|done].
    rewrite result_bind_ok in Hl.
    destruct (mapM f l) as [ys|e]; [|done].
    injection Hl as <-. simpl. rewrite (IH ys eq_refl). done.
Qed.

(** The first element on which [f] raises decides the outcome. *)
Lemma mapM_result_raise (f : A → result B) (g : A → B) (l k : list A) x e :
  Forall (λ y, f y = Ok (g y)) l → f x = Raise e →
  mapM f (l ++ x :: k) = Raise e.
Proof.
  induction 1 as [|y l Hy _ IH]; intros Hx.
  - rewrite app_nil_l, mapM_result_cons, Hx. done.
  - rewrite <- app_comm_cons, mapM_result_cons, Hy, (IH Hx). done.
Qed.
End ResultLemmas.

(** ** Binary numerals *)

Definition bits_val (s : list bool) : N :=
  foldl (λ acc (b : bool), 2 * acc + (if b then 1 else 0)) 0 s.

Lemma int2_val s : s ≠ [] → int2 s = Ok (bits_val s).
Proof. destruct s; done. Qed.

Lemma bits_val_snoc s (b : bool) :
  bits_val (s ++ [b]) = 2 * bits_val s + (if b then 1 else 0).
Proof. unfold bits_val. rewrite foldl_app. done. Qed.

Lemma bits_val_zeros k s : bits_val (replicate k false ++ s) = bits_val s.
Proof.
  unfold bits_val. rewrite foldl_app.
  replace (foldl _ 0 (replicate k false)) with 0; [done|].
  induction k as [|k IH]; simpl; done.
Qed.

Lemma bits_val_bound s : bits_val s < 2 ^ N.of_nat (length s).
Proof.
  induction s as [|b s IH] using rev_ind; [done|].
  rewrite bits_val_snoc, length_app. simpl.
  replace (N.of_nat (length s + 1)) with (N.succ (N.of_nat (length s))) by lia.
  rewrite N.pow_succ_r'. destruct b; lia.
Qed.

Lemma bits_val_inj s t : length s = length t → bits_val s = bits_val t → s = t.
Proof.
  revert t. induction s as [|b s IH] using rev_ind; intros t Hlen Hval.
  - destruct t; [done|]. simpl in Hlen. lia.
  - destruct t as [|c t _] using rev_ind.
    + rewrite length_app in Hlen. simpl in Hlen. lia.
    + rewrite !length_app in Hlen. simpl in Hlen.
      rewrite !bits_val_snoc in Hval.
      assert (bits_val s = bits_val t ∧ b = c) as [Hst ->]
        by (destruct b, c; split; (done || lia)).
      f_equal. apply IH; [lia|done].
Qed.

Lemma pos_bits_acc p acc : pos_bits p acc = pos_bits p [] ++ acc.
Proof.
  revert acc. induction p as [p IH|p IH|]; intros acc; simpl; [| |done].
  - rewrite (IH (true :: acc)), (IH [true]), <- app_assoc. done.
  - rewrite (IH (false :: acc)), (IH [false]), <- app_assoc. done.
Qed.

Lemma bits_val_pos_bits p : bits_val (pos_bits p []) = Npos p.
Proof.
  induction p as [p IH|p IH|]; simpl; [| |done].
  - rewrite pos_bits_acc, bits_val_snoc, IH. lia.
  - rewrite pos_bits_acc, bits_val_snoc, IH. lia.
Qed.

Lemma pos_bits_length p (w : nat) :
  Npos p < 2 ^ N.of_nat w → (length (pos_bits p []) ≤ w)%nat.
Proof.
  revert w. induction p as [p IH|p IH|]; intros w Hw; simpl.
  - destruct w as [|w]; [simpl in Hw; lia|].
    rewrite pos_bits_acc, length_app. simpl.
    replace (N.of_nat (S w)) with (N.succ (N.of_nat w)) in Hw by lia.
    rewrite N.pow_succ_r' in Hw.
    assert (Npos p < 2 ^ N.of_nat w) as Hp by lia.
    specialize (IH w Hp). lia.
  - destruct w as [|w]; [simpl in Hw; lia|].
    rewrite pos_bits_acc, length_app. simpl.
    replace (N.of_nat (S w)) with (N.succ (N.of_nat w)) in Hw by lia.
    rewrite N.pow_succ_r' in Hw.
    assert (Npos p < 2 ^ N.of_nat w) as Hp by lia.
    specialize (IH w Hp). lia.
  - destruct w as [|w]; [simpl in Hw; lia|lia].
Qed.

Lemma pos_bits_nonempty p acc : pos_bits p acc ≠ [].
Proof. revert acc. induction p as [p IH|p IH|]; intros acc; simpl; auto. Qed.

Lemma bin_nonempty n : bin n ≠ [].
Proof. destruct n as [|p]; [done|]. apply pos_bits_nonempty. Qed.

Lemma bits_val_bin n : bits_val (bin n) = n.
Proof. destruct n; [done|]. apply bits_val_pos_bits. Qed.

Lemma bin_length n (w : nat) :
  (0 < w)%nat → n < 2 ^ N.of_nat w → (length (bin n) ≤ w)%nat.
Proof.
  intros Hw Hn. destruct n as [|p]; simpl; [lia|].
  by apply pos_bits_length.
Qed.

Lemma format_b_length w n :
  (0 < w)%nat → n < 2 ^ N.of_nat w → length (format_b w n) = w.
Proof.
  intros Hw Hn. unfold format_b. cbv zeta.
  rewrite length_app, length_replicate.
  pose proof (bin_length n w Hw Hn). lia.
Qed.

Lemma format_b_nonempty w n : format_b w n ≠ [].
Proof.
  unfold format_b. cbv zeta. intros H.
  apply app_eq_nil in H as [_ H]. by apply bin_nonempty in H.
Qed.

Lemma bits_val_format_b w n : bits_val (format_b w n) = n.
Proof. unfold format_b. cbv zeta. rewrite bits_val_zeros. apply bits_val_bin. Qed.

(** Parsing a formatted number gives the number back. *)
Lemma int2_format_b w n : int2 (format_b w n) = Ok n.
Proof.
  rewrite int2_val by apply format_b_nonempty.
  by rewrite bits_val_format_b.
Qed.

(** Formatting a parsed group of exactly [w] digits gives the group back. *)
Lemma format_b_bits_val w s :
  (0 < w)%nat → length s = w → format_b w (bits_val s) = s.
Proof.
  intros Hw Hs. apply bits_val_inj.
  - rewrite format_b_length; [done|done|].
    rewrite <- Hs. apply bits_val_bound.
  - apply bits_val_format_b.
Qed.

(** ** Cutting a sequence into groups of [n]

    Both directions of the codec build [[s[i:i+n] for i in range(0, len(s), n)]];
    [chunks] names that comprehension. *)

Definition chunks {A} (n : nat) (l : list A) : list (list A) :=
  (λ i, slice l i (i + n)) <$> range (length l) n.

Section Chunks.
Context {A : Type}.
Implicit Types (l t : list A) (bs : list (list A)) (n k : nat).

Lemma slice_take_drop l i n : slice l i (i + n) = take n (drop i l).
Proof. unfold slice. f_equal. lia. Qed.

Lemma range_length stop step :
  length (range stop step) = ((stop + step - 1) / step)%nat.
Proof. unfold range. by rewrite length_fmap, length_seq. Qed.

Lemma range_zero step : (0 < step)%nat → range 0 step = [].
Proof.
  intros Hs. unfold range.
  replace ((0 + step - 1) / step)%nat with 0%nat; [done|].
  symmetry. apply Nat.div_small. lia.
Qed.

Lemma range_pos stop step :
  (0 < step)%nat → (0 < stop)%nat →
  range stop step = 0%nat :: ((λ i, i + step)%nat <$> range (stop - step) step).
Proof.
  intros Hs Hp. unfold range.
  assert (((stop + step - 1) / step)%nat
          = S ((stop - step + step - 1) / step)) as ->.
  { destruct (decide (step ≤ stop)%nat) as [Hle|Hgt].
    - replace (stop + step - 1)%nat
        with (stop - step + step - 1 + 1 * step)%nat by lia.
      rewrite Nat.div_add by lia. lia.
    - replace (stop - step + step - 1)%nat with (step - 1)%nat by lia.
      rewrite (Nat.div_small (step - 1)) by lia.
      replace (stop + step - 1)%nat with (stop - 1 + 1 * step)%nat by lia.
      rewrite Nat.div_add by lia.
      rewrite Nat.div_small by lia. done. }
  rewrite <- cons_seq, fmap_cons. f_equal.
  rewrite <- fmap_S_seq, <- !list_fmap_compose.
  apply list_fmap_ext. intros i x _. simpl. lia.
Qed.

Lemma chunks_nil n : (0 < n)%nat → chunks n (@nil A) = [].
Proof. intros Hn. unfold chunks. simpl. by rewrite range_zero. Qed.

Lemma chunks_step n l :
  (0 < n)%nat → l ≠ [] → chunks n l = take n l :: chunks n (drop n l).
Proof.
  intros Hn Hl. unfold chunks.
  rewrite range_pos; [|done|destruct l; simpl; [done|lia]].
  rewrite fmap_cons, slice_take_drop. simpl drop. f_equal.
  rewrite <- list_fmap_compose, length_drop.
  apply list_fmap_ext. intros i x _. simpl.
  rewrite !slice_take_drop, drop_drop. do 2 f_equal. lia.
Qed.


Lemma chunks_cons_block n (a : list A) l :
  (0 < n)%nat → length a = n → chunks n (a ++ l) = a :: chunks n l.
Proof.
  intros Hn Ha. rewrite chunks_step; [|done|].
  - subst n. by rewrite take_app_length, drop_app_length.
  - destruct a; simpl in *; [lia|done].
Qed.

(** Whole groups at the front come back unchanged. *)
Lemma chunks_blocks n bs t :
  (0 < n)%nat → Forall (λ c, length c = n) bs →
  chunks n (mjoin bs ++ t) = bs ++ chunks n t.
Proof.
  intros Hn. induction 1 as [|b bs Hb _ IH]; [done|].
  simpl. rewrite <- app_assoc, chunks_cons_block, IH; done.
Qed.

(** A sequence of [k * n] elements is cut into [k] whole groups. *)
Lemma chunks_exact n k l :
  (0 < n)%nat → length l = (k * n)%nat →
  Forall (λ c, length c = n) (chunks n l)
  ∧ length (chunks n l) = k
  ∧ mjoin (chunks n l) = l.
Proof.
  intros Hn. revert l. induction k as [|k IH]; intros l Hl.
  - destruct l; [|simpl in Hl; lia]. rewrite chunks_nil by done. done.
  - assert (l ≠ []) as Hne by (intros ->; simpl in Hl; lia).
    rewrite chunks_step by done.
    destruct (IH (drop n l)) as (Hall & Hlen & Hjoin).
    { rewrite length_drop. lia. }
    split_and!.
    + constructor; [|done]. rewrite length_take. lia.
    + simpl. by rewrite Hlen.
    + simpl. by rewrite Hjoin, take_drop.
Qed.




Lemma chunks_length n l :
  (0 < n)%nat → length (chunks n l) = ((length l + n - 1) / n)%nat.
Proof. intros _. unfold chunks. by rewrite length_fmap, range_length. Qed.
End Chunks.

(** ** The alphabet and its two tables *)

Section DictOfEnumerate.
Implicit Types (l : list N) (d : gmap N N).

Let ins := λ d '((i, ch) : nat * N), <[ch := N.of_nat i]> d.

Lemma foldl_enumerate_notin l (s : nat) d ch :
  ch ∉ l → foldl ins d (zip (seq s (length l)) l) !! ch = d !! ch.
Proof.
  revert s d. induction l as [|x l IH]; intros s d Hch; [done|].
  apply not_elem_of_cons in Hch as [Hne Hch]. simpl.
  rewrite IH by done. by rewrite lookup_insert_ne.
Qed.

Lemma foldl_enumerate_lookup l (s : nat) d (i : nat) ch :
  NoDup l → l !! i = Some ch →
  foldl ins d (zip (seq s (length l)) l) !! ch = Some (N.of_nat (s + i)).
Proof.
  intros Hnd. revert s d i.
  induction Hnd as [|x l Hx _ IH]; intros s d i Hi; [done|].
  simpl. destruct i as [|i]; simpl in Hi.
  - injection Hi as ->. rewrite foldl_enumerate_notin by done.
    rewrite lookup_insert_eq. do 2 f_equal. lia.
  - rewrite (IH (S s) _ i Hi). do 2 f_equal. lia.
Qed.
End DictOfEnumerate.

Module Alphabet.
Import Optimizer.

Lemma CHINESE_CHARS_length : length CHINESE_CHARS = 8192%nat.
Proof. unfold CHINESE_CHARS. by rewrite length_fmap, length_seq. Qed.

Lemma alphabet_size (v : N) : v < 8192 ↔ (N.to_nat v < 8192)%nat.
Proof. change 8192%nat with (N.to_nat 8192). lia. Qed.

Lemma CHINESE_CHARS_lookup (v : N) :
  v < 8192 → CHINESE_CHARS !! N.to_nat v = Some (chr (0x4E00 + v)).
Proof.
  intros Hv%alphabet_size. unfold CHINESE_CHARS.
  rewrite list_lookup_fmap, lookup_seq_lt by done. simpl.
  by rewrite N2Nat.id.
Qed.

Lemma CHINESE_CHARS_NoDup : NoDup CHINESE_CHARS.
Proof.
  unfold CHINESE_CHARS. apply NoDup_fmap_2; [|apply NoDup_seq].
  intros i j Hij. unfold chr in Hij. lia.
Qed.

Lemma elem_of_CHINESE_CHARS (ch : N) :
  ch ∈ CHINESE_CHARS ↔ 0x4E00 ≤ ch < 0x4E00 + 8192.
Proof.
  unfold CHINESE_CHARS. rewrite list_elem_of_fmap. unfold chr. split.
  - intros (i & -> & Hi). apply elem_of_seq in Hi.
    change (0 + 8192)%nat with (N.to_nat 8192) in Hi. lia.
  - intros Hch. exists (N.to_nat (ch - 0x4E00)). split; [lia|].
    apply elem_of_seq. change (0 + 8192)%nat with (N.to_nat 8192). lia.
Qed.

Lemma CHAR_TO_VAL_lookup (v : N) :
  v < 8192 → CHAR_TO_VAL !! chr (0x4E00 + v) = Some v.
Proof.
  intros Hv. unfold CHAR_TO_VAL, enumerate.
  rewrite (foldl_enumerate_lookup CHINESE_CHARS 0 ∅ (N.to_nat v)
             (chr (0x4E00 + v))).
  - simpl. by rewrite N2Nat.id.
  - apply CHINESE_CHARS_NoDup.
  - by apply CHINESE_CHARS_lookup.
Qed.

Lemma CHAR_TO_VAL_None (ch : N) :
  ch ∉ CHINESE_CHARS → CHAR_TO_VAL !! ch = None.
Proof.
  intros Hch. unfold CHAR_TO_VAL, enumerate.
  rewrite (foldl_enumerate_notin CHINESE_CHARS 0 ∅ ch Hch). done.
Qed.
End Alphabet.

(** ** The encoder *)

Module Encoder.
Import Optimizer Alphabet.

(** What one 13-bit group becomes (the body of the comprehension of
    line 61, applied to the group). *)
Definition encode_group (c : list bool) : result N :=
  v ← int2 c; list_getitem CHINESE_CHARS v.

Definition symbol_of_group (c : list bool) : N := chr (0x4E00 + bits_val c).

Lemma byte_bits_blocks (data : list byte) :
  Forall (λ c, length c = 8%nat) ((λ b, format_b 8 (Byte.to_N b)) <$> data).
Proof.
  apply Forall_fmap, Forall_forall. intros b _. simpl.
  apply format_b_length; [lia|].
  pose proof (Byte.to_N_bounded b). change (2 ^ N.of_nat 8) with 256. lia.
Qed.

Lemma byte_bits_length (data : list byte) :
  length (byte_bits data) = (8 * length data)%nat.
Proof.
  unfold byte_bits. pose proof (byte_bits_blocks data) as H.
  induction data as [|b data IH]; [done|].
  rewrite fmap_cons in H |- *. apply Forall_cons in H as [Hb H].
  simpl. rewrite length_app, Hb, (IH H). lia.
Qed.

Lemma pad13_spec (bits : list bool) :
  pad13 bits
  = bits ++ replicate ((13 - length bits mod 13) mod 13) false.
Proof.
  unfold pad13. case_decide as Hm.
  - do 2 f_equal. symmetry. apply Nat.mod_small. lia.
  - replace (length bits mod 13)%nat with 0%nat by lia.
    simpl. by rewrite app_nil_r.
Qed.

Lemma pad13_length (bits : list bool) :
  length (pad13 bits) = ((length bits + 12) / 13 * 13)%nat.
Proof. rewrite pad13_spec, length_app, length_replicate. div_lia. Qed.

Lemma encode_group_ok (c : list bool) :
  length c = 13%nat → encode_group c = Ok (symbol_of_group c).
Proof.
  intros Hc. unfold encode_group, symbol_of_group.
  rewrite int2_val by (intros ->; done). rewrite result_bind_ok.
  pose proof (bits_val_bound c) as Hb. rewrite Hc in Hb.
  change (2 ^ N.of_nat 13) with 8192 in Hb.
  unfold list_getitem. by rewrite CHINESE_CHARS_lookup.
Qed.

(** The encoder never raises; its text is one symbol per 13-bit group of
    the padded bit string. *)
Lemma to_chinese_base8192_ok (data : list byte) :
  to_chinese_base8192 data
  = Ok (symbol_of_group <$> chunks 13 (pad13 (byte_bits data))).
Proof.
  unfold to_chinese_base8192. cbv zeta.
  set (bits := pad13 (byte_bits data)).
  change (mapM _ (range (length bits) 13))
    with (mapM (encode_group ∘ (λ i, slice bits i (i + 13)))
               (range (length bits) 13)).
  rewrite <- mapM_result_fmap. fold (chunks 13 bits).
  destruct (chunks_exact 13 ((length (byte_bits data) + 12) / 13) bits)
    as (Hall & _ & _); [lia|apply pad13_length|].
  rewrite (mapM_result_ok encode_group symbol_of_group); [done|].
  eapply Forall_impl; [exact Hall|]. intros c Hc. by apply encode_group_ok.
Qed.
End Encoder.

(** ** The decoder *)

Module Decoder.
Import Optimizer Alphabet.

Definition decode_symbol (ch : N) : result (list bool) :=
  v ← dict_getitem CHAR_TO_VAL ch; mret (format_b 13 v).

Definition decode_group (b : list bool) : result byte :=
  v ← int2 b; to_byte v.

Definition bits_of_symbol (ch : N) : list bool := format_b 13 (ch - 0x4E00).

Definition byte_of_group (b : list bool) : byte :=
  default "000"%byte (Byte.of_N (bits_val b)).

Lemma decode_symbol_ok (ch : N) :
  ch ∈ CHINESE_CHARS → decode_symbol ch = Ok (bits_of_symbol ch).
Proof.
  intros Hch%elem_of_CHINESE_CHARS. unfold decode_symbol, dict_getitem.
  pose proof (CHAR_TO_VAL_lookup (ch - 0x4E00)) as H.
  unfold chr in H. replace (0x4E00 + (ch - 0x4E00)) with ch in H by lia.
  rewrite H by lia. done.
Qed.

Lemma decode_symbol_raise (ch : N) :
  ch ∉ CHINESE_CHARS → decode_symbol ch = Raise (KeyError ch).
Proof.
  intros Hch. unfold decode_symbol, dict_getitem.
  by rewrite CHAR_TO_VAL_None.
Qed.

Lemma bits_of_symbol_length (ch : N) :
  ch ∈ CHINESE_CHARS → length (bits_of_symbol ch) = 13%nat.
Proof.
  intros Hch%elem_of_CHINESE_CHARS. apply format_b_length; [lia|].
  change (2 ^ N.of_nat 13) with 8192. lia.
Qed.

Lemma symbol_bits_unfold (text : list N) :
  symbol_bits text = parts ← mapM decode_symbol text; mret (mjoin parts).
Proof. unfold symbol_bits, decode_symbol. reflexivity. Qed.

Lemma symbol_bits_ok (text : list N) :
  Forall (λ ch, ch ∈ CHINESE_CHARS) text →
  symbol_bits text = Ok (mjoin (bits_of_symbol <$> text)).
Proof.
  intros Htext. rewrite symbol_bits_unfold.
  rewrite (mapM_result_ok decode_symbol bits_of_symbol); [done|].
  eapply Forall_impl; [exact Htext|]. intros ch. apply decode_symbol_ok.
Qed.

Lemma symbol_bits_length (text : list N) :
  Forall (λ ch, ch ∈ CHINESE_CHARS) text →
  length (mjoin (bits_of_symbol <$> text)) = (13 * length text)%nat.
Proof.
  induction 1 as [|ch text Hch _ IH]; [done|].
  rewrite fmap_cons. simpl.
  rewrite length_app, IH, bits_of_symbol_length by done. lia.
Qed.

(** The first character outside the alphabet is a [KeyError]. *)
Lemma symbol_bits_raise (l k : list N) (ch : N) :
  Forall (λ c, c ∈ CHINESE_CHARS) l → ch ∉ CHINESE_CHARS →
  symbol_bits (l ++ ch :: k) = Raise (KeyError ch).
Proof.
  intros Hl Hch. rewrite symbol_bits_unfold.
  rewrite (mapM_result_raise decode_symbol bits_of_symbol l k ch (KeyError ch));
    [done| |by apply decode_symbol_raise].
  eapply Forall_impl; [exact Hl|]. intros c. apply decode_symbol_ok.
Qed.

Lemma decode_group_ok (b : list bool) :
  length b = 8%nat → decode_group b = Ok (byte_of_group b).
Proof.
  intros Hb. unfold decode_group, byte_of_group.
  rewrite int2_val by (intros ->; done). rewrite result_bind_ok.
  pose proof (bits_val_bound b) as Hv. rewrite Hb in Hv.
  change (2 ^ N.of_nat 8) with 256 in Hv.
  unfold to_byte. destruct (Byte.of_N (bits_val b)) as [x|] eqn:Hx; [done|].
  apply Byte.of_N_None_iff in Hx. lia.
Qed.

Lemma byte_of_group_format (b : byte) :
  byte_of_group (format_b 8 (Byte.to_N b)) = b.
Proof.
  unfold byte_of_group. by rewrite bits_val_format_b, Byte.of_to_N.
Qed.
End Decoder.

(** ** Decoding what the encoder wrote *)

Module RoundTrip.
Import Optimizer Alphabet Encoder Decoder.

Lemma from_chinese_base8192_unfold (text : list N) :
  from_chinese_base8192 text
  = bits ← symbol_bits text;
    mapM decode_group (complete_groups (byte_groups bits)).
Proof. unfold from_chinese_base8192, decode_group. reflexivity. Qed.

Lemma symbol_of_group_elem (c : list bool) :
  length c = 13%nat → symbol_of_group c ∈ CHINESE_CHARS.
Proof.
  intros Hc. apply elem_of_CHINESE_CHARS. unfold symbol_of_group, chr.
  pose proof (bits_val_bound c) as Hb. rewrite Hc in Hb.
  change (2 ^ N.of_nat 13) with 8192 in Hb. lia.
Qed.

Lemma bits_of_symbol_of_group (c : list bool) :
  length c = 13%nat → bits_of_symbol (symbol_of_group c) = c.
Proof.
  intros Hc. unfold bits_of_symbol, symbol_of_group, chr.
  replace (0x4E00 + bits_val c - 0x4E00) with (bits_val c) by lia.
  apply format_b_bits_val; [lia|done].
Qed.

(** The decoder recovers the padded bit string exactly. *)
Lemma symbol_bits_encode (data : list byte) :
  symbol_bits (symbol_of_group <$> chunks 13 (pad13 (byte_bits data)))
  = Ok (pad13 (byte_bits data)).
Proof.
  set (bits := pad13 (byte_bits data)).
  destruct (chunks_exact 13 ((length (byte_bits data) + 12) / 13) bits)
    as (Hall & _ & Hjoin); [lia|apply pad13_length|].
  rewrite symbol_bits_ok.
  - f_equal. rewrite <- Hjoin at 2. f_equal.
    rewrite <- list_fmap_compose.
    rewrite <- (list_fmap_id (chunks 13 bits)) at 2.
    apply Forall_fmap_ext. eapply Forall_impl; [exact Hall|].
    intros c Hc. simpl. by apply bits_of_symbol_of_group.
  - apply Forall_fmap. eapply Forall_impl; [exact Hall|].
    intros c Hc. simpl. by apply symbol_of_group_elem.
Qed.

Lemma filter_Forall {A} (P : A → Prop) `{∀ x, Decision (P x)} (l : list A) :
  Forall P l → filter P l = l.
Proof.
  induction 1 as [|x l Hx _ IH]; [done|].
  rewrite filter_cons_True by done. by rewrite IH.
Qed.

(** The groups of 8 cut from a run of fewer than 13 padding zeros: one
    whole zero group exactly when there are 8 or more. *)
Lemma complete_groups_padding (p : nat) :
  (p < 13)%nat →
  complete_groups (byte_groups (replicate p false))
  = replicate (p / 8) (replicate 8 false).
Proof.
  intros Hp. do 13 (destruct p as [|p]; [vm_compute; reflexivity|]). lia.
Qed.

Lemma complete_groups_encode (data : list byte) :
  complete_groups (byte_groups (pad13 (byte_bits data)))
  = ((λ b, format_b 8 (Byte.to_N b)) <$> data)
    ++ replicate ((13 - (8 * length data) mod 13) mod 13 / 8)
                 (replicate 8 false).
Proof.
  rewrite pad13_spec, byte_bits_length.
  set (p := ((13 - (8 * length data) mod 13) mod 13)%nat).
  assert (p < 13)%nat as Hp by (subst p; apply Nat.mod_upper_bound; lia).
  pose proof (byte_bits_blocks data) as Hblocks.
  unfold byte_groups. fold (chunks 8 (byte_bits data ++ replicate p false)).
  unfold byte_bits. rewrite chunks_blocks by (done || lia).
  unfold complete_groups. rewrite filter_app.
  rewrite filter_Forall by done. f_equal.
  apply (complete_groups_padding p Hp).
Qed.

(** Decoding an encoded byte sequence gives the sequence back, followed
    by one zero byte when the encoder added 8 or more padding bits. *)
Lemma from_to_chinese_base8192 (data : list byte) :
  to_chinese_base8192 data ≫= from_chinese_base8192
  = Ok (data ++ replicate ((13 - (8 * length data) mod 13) mod 13 / 8)
                          "000"%byte).
Proof.
  rewrite to_chinese_base8192_ok, result_bind_ok.
  rewrite from_chinese_base8192_unfold, symbol_bits_encode, result_bind_ok.
  rewrite complete_groups_encode.
  apply mapM_result_app.
  - rewrite (mapM_result_ok decode_group byte_of_group).
    + f_equal. rewrite <- list_fmap_compose.
      rewrite <- (list_fmap_id data) at 2.
      apply list_fmap_ext. intros i b _. simpl. apply byte_of_group_format.
    + eapply Forall_impl; [apply byte_bits_blocks|].
      intros c Hc. simpl in Hc. by apply decode_group_ok.
  - generalize ((13 - (8 * length data) mod 13) mod 13 / 8)%nat. intros k.
    assert (decode_group (replicate 8 false) = Ok "000"%byte) as Hz
      by (vm_compute; reflexivity).
    induction k as [|k IH]; [done|].
    rewrite (replicate_S k (replicate 8 false)), (replicate_S k "000"%byte).
    rewrite mapM_result_cons, Hz, IH. done.
Qed.
End RoundTrip.

(** * The specification's claims *)

Import Optimizer.

Section CodecClaims.
Import Alphabet Encoder Decoder RoundTrip.

Lemma first_outside_alphabet (text : list N) (ch : N) :
  ch ∈ text → ch ∉ CHINESE_CHARS →
  ∃ l bad k, text = l ++ bad :: k
             ∧ Forall (λ c, c ∈ CHINESE_CHARS) l ∧ (bad ∉ CHINESE_CHARS).
Proof.
  intros Hin Hout. induction text as [|x text IH]; [by apply elem_of_nil in Hin|].
  destruct (decide (x ∈ CHINESE_CHARS)) as [Hx|Hx].
  - apply elem_of_cons in Hin as [->|Hin]; [done|].
    destruct (IH Hin) as (l & bad & k & -> & Hl & Hbad).
    exists (x :: l), bad, k. split_and!; [done|by constructor|done].
  - exists [], x, text. split_and!; [done|constructor|done].
Qed.


(** C1, evaluated on the two bytes [b"ab"]: the encoder pads 16 bits with
    10 zeros to 26, and the decoder keeps three whole 8-bit groups of those
    26 bits, so decoding the encoding returns [b"ab\x00"], not [b"ab"]. *)
Theorem roundtrip_two_bytes :
  to_chinese_base8192 ["a"%byte; "b"%byte] = Ok [0x5a2c; 0x5600]
  ∧ from_chinese_base8192 [0x5a2c; 0x5600]
    = Ok ["a"%byte; "b"%byte; "000"%byte]
  ∧ to_chinese_base8192 ["a"%byte; "b"%byte] ≫= from_chinese_base8192
    ≠ Ok ["a"%byte; "b"%byte].
Proof.
  assert (to_chinese_base8192 ["a"%byte; "b"%byte] = Ok [0x5a2c; 0x5600]) as He
    by (vm_compute; reflexivity).
  assert (from_chinese_base8192 [0x5a2c; 0x5600]
          = Ok ["a"%byte; "b"%byte; "000"%byte]) as Hd
    by (vm_compute; reflexivity).
  split_and!; [done|done|].
  rewrite He, result_bind_ok, Hd. discriminate.
Qed.

(** C2: the encoder returns exactly ceil(8*N/13) symbols for N bytes; the
    bit string has 8*N bits and is right-padded with exactly
    (13 - (8*N) % 13) % 13 zero bits before it is cut into 13-bit groups. *)
Theorem symbol_count (data : list byte) :
  ∃ text,
    to_chinese_base8192 data = Ok text
    ∧ length text = ((8 * length data + 12) / 13)%nat
    ∧ (8 * length data ≤ 13 * length text < 8 * length data + 13)%nat
    ∧ length (byte_bits data) = (8 * length data)%nat
    ∧ pad13 (byte_bits data)
      = byte_bits data
        ++ replicate ((13 - (8 * length data) mod 13) mod 13) false
    ∧ text = symbol_of_group <$> chunks 13 (pad13 (byte_bits data))
    ∧ Forall (λ c, length c = 13%nat) (chunks 13 (pad13 (byte_bits data))).
Proof.
  exists (symbol_of_group <$> chunks 13 (pad13 (byte_bits data))).
  destruct (chunks_exact 13 ((length (byte_bits data) + 12) / 13)
              (pad13 (byte_bits data)))
    as (Hall & Hlen & _); [lia|apply pad13_length|].
  assert (length (symbol_of_group <$> chunks 13 (pad13 (byte_bits data)))
          = ((8 * length data + 12) / 13)%nat) as Hcount.
  { by rewrite length_fmap, Hlen, byte_bits_length. }
  split_and!.
  - apply to_chinese_base8192_ok.
  - done.
  - rewrite Hcount. div_lia.
  - rewrite Hcount. div_lia.
  - apply byte_bits_length.
  - by rewrite pad13_spec, byte_bits_length.
  - done.
  - done.
Qed.

(** C3: the alphabet is bijective.  The 8192 symbols [chr(0x4E00 + i)] are
    pairwise distinct, and for every index [i] in [0, 8192) the symbol at
    [i] is looked up in [CHAR_TO_VAL] as [i]. *)
Theorem alphabet_bijective (i : N) :
  i < 8192 →
  length CHINESE_CHARS = 8192%nat
  ∧ NoDup CHINESE_CHARS
  ∧ list_getitem CHINESE_CHARS i = Ok (chr (0x4E00 + i))
  ∧ dict_getitem CHAR_TO_VAL (chr (0x4E00 + i)) = Ok i.
Proof.
  intros Hi. split_and!.
  - apply CHINESE_CHARS_length.
  - apply CHINESE_CHARS_NoDup.
  - unfold list_getitem. by rewrite CHINESE_CHARS_lookup.
  - unfold dict_getitem. by rewrite CHAR_TO_VAL_lookup.
Qed.

Lemma alphabet_bijective_witness :
  5 < 8192
  ∧ length CHINESE_CHARS = 8192%nat
  ∧ NoDup CHINESE_CHARS
  ∧ list_getitem CHINESE_CHARS 5 = Ok (chr (0x4E00 + 5))
  ∧ dict_getitem CHAR_TO_VAL (chr (0x4E00 + 5)) = Ok 5.
Proof. split; [reflexivity|apply (alphabet_bijective 5); reflexivity]. Defined.

(** C4: a text with a character outside the alphabet makes the decoder
    raise the [KeyError] of the table lookup (the spec's UnknownSymbol) on
    the first such character; no bytes are returned. *)
Theorem unknown_symbol_rejected (text : list N) (ch : N) :
  ch ∈ text → ch ∉ CHINESE_CHARS →
  ∃ l bad k,
    text = l ++ bad :: k
    ∧ Forall (λ c, c ∈ CHINESE_CHARS) l
    ∧ (bad ∉ CHINESE_CHARS)
    ∧ from_chinese_base8192 text = Raise (KeyError bad)
    ∧ ∀ bs, from_chinese_base8192 text ≠ Ok bs.
Proof.
  intros Hin Hout.
  destruct (first_outside_alphabet text ch Hin Hout) as (l & bad & k & -> & Hl & Hbad).
  assert (from_chinese_base8192 (l ++ bad :: k) = Raise (KeyError bad)) as Hr.
  { rewrite from_chinese_base8192_unfold, symbol_bits_raise by done. done. }
  exists l, bad, k. split_and!; [done..|].
  intros bs. rewrite Hr. discriminate.
Qed.

Lemma unknown_symbol_rejected_witness :
  ∃ l bad k,
    [0x4E00; 0x41; 0x4E01] = l ++ bad :: k
    ∧ Forall (λ c, c ∈ CHINESE_CHARS) l
    ∧ (bad ∉ CHINESE_CHARS)
    ∧ from_chinese_base8192 [0x4E00; 0x41; 0x4E01] = Raise (KeyError bad)
    ∧ ∀ bs, from_chinese_base8192 [0x4E00; 0x41; 0x4E01] ≠ Ok bs.
Proof.
  apply (unknown_symbol_rejected [0x4E00; 0x41; 0x4E01] 0x41).
  - apply elem_of_cons. right. apply elem_of_cons. left. reflexivity.
  - rewrite elem_of_CHINESE_CHARS. lia.
Defined.



(** C8: encoding the empty byte sequence gives the empty text, and
    decoding the empty text gives the empty byte sequence. *)
Theorem empty_input :
  to_chinese_base8192 [] = Ok [] ∧ from_chinese_base8192 [] = Ok [].
Proof. split; vm_compute; reflexivity. Qed.

End CodecClaims.

(** ** The two copies of the decoder *)

Lemma CHINESE_CHARS_copies : Inference.CHINESE_CHARS = Optimizer.CHINESE_CHARS.
Proof. reflexivity. Qed.

Lemma CHAR_TO_VAL_copies : Inference.CHAR_TO_VAL = Optimizer.CHAR_TO_VAL.
Proof.
  unfold Inference.CHAR_TO_VAL, Optimizer.CHAR_TO_VAL.
  by rewrite CHINESE_CHARS_copies.
Qed.

(** C9: [from_chinese_base8192] of inference.py and of optimizer.py are
    extensionally equal: on every text they return the same bytes or raise
    the same exception. *)
Theorem decode_copies_agree (text : list N) :
  Inference.from_chinese_base8192 text = Optimizer.from_chinese_base8192 text.
Proof.
  unfold Inference.from_chinese_base8192, Optimizer.from_chinese_base8192.
  unfold symbol_bits, byte_groups, complete_groups.
  rewrite CHAR_TO_VAL_copies. reflexivity.
Qed.

(** ** The precision reducer *)

Section ReducerClaims.
Context {scalar : Type} (cast : dtype → dtype → scalar → scalar).
Implicit Types (data : gmap string (ndarray scalar)) (k : string).

Lemma float16_dict_from_npz_lookup data k :
  float16_dict_from_npz cast data !! k
  = (λ v, if decide (kind (arr_dtype v) = "f"%char)
          then astype cast float16 v else v) <$> data !! k.
Proof. unfold float16_dict_from_npz. apply lookup_fmap. Qed.


(** C5: an entry whose element type is not floating-point comes out of the
    reducer unchanged: same element type, same shape, same values. *)
Theorem non_float_unchanged data k (v : ndarray scalar) :
  data !! k = Some v → kind (arr_dtype v) ≠ "f"%char →
  ∃ v', float16_dict_from_npz cast data !! k = Some v'
        ∧ arr_dtype v' = arr_dtype v
        ∧ shape v' = shape v
        ∧ items v' = items v
        ∧ v' = v.
Proof.
  intros Hk Hkind. exists v.
  rewrite float16_dict_from_npz_lookup, Hk. simpl.
  by rewrite decide_False.
Qed.

(** C10: a floating-point entry of any width comes out with element type
    exactly float16 (two bytes per element), its shape kept and every
    element converted to float16. *)
Theorem float_entries_become_float16 data k (v : ndarray scalar) :
  data !! k = Some v → kind (arr_dtype v) = "f"%char →
  ∃ v', float16_dict_from_npz cast data !! k = Some v'
        ∧ arr_dtype v' = float16
        ∧ itemsize (arr_dtype v') = 2%nat
        ∧ shape v' = shape v
        ∧ items v' = cast (arr_dtype v) float16 <$> items v.
Proof.
  intros Hk Hkind. exists (astype cast float16 v).
  rewrite float16_dict_from_npz_lookup, Hk. simpl.
  by rewrite decide_True.
Qed.
End ReducerClaims.

Lemma non_float_unchanged_witness :
  ∃ v', float16_dict_from_npz (λ _ _ (x : Z), x)
          {["idx" := Ndarray int32 [3%nat] [1; 2; 3]%Z]} !! "idx" = Some v'
        ∧ arr_dtype v' = int32
        ∧ shape v' = [3%nat]
        ∧ items v' = [1; 2; 3]%Z
        ∧ v' = Ndarray int32 [3%nat] [1; 2; 3]%Z.
Proof.
  apply (non_float_unchanged (λ _ _ (x : Z), x)
           {["idx" := Ndarray int32 [3%nat] [1; 2; 3]%Z]} "idx"
           (Ndarray int32 [3%nat] [1; 2; 3]%Z)).
  - apply lookup_singleton_eq.
  - simpl. discriminate.
Defined.

(** ** The reducer, from the archive on disk *)

Section MapMFailures.
Context {A B : Type}.


End MapMFailures.

Section LoaderClaims.
Context {scalar : Type} (cast : dtype → dtype → scalar → scalar).
Variable np_load : string → option (gmap string (npy scalar)).
Implicit Types (data : gmap string (npy scalar)) (m : npy scalar).

Lemma read_array_ok m : hasobject m = false → read_array m = Ok (stored m).
Proof. unfold read_array. by intros ->. Qed.


(** An archive whose members can all be read gives the reduced mapping of
    the stored arrays. *)
Lemma float16_dict_from_npz_path_ok npz_path data :
  np_load npz_path = Some data →
  (∀ k m, data !! k = Some m → hasobject m = false) →
  float16_dict_from_npz_path cast np_load npz_path
  = Done (float16_dict_from_npz cast (stored <$> data)).
Proof.
  intros Hload Hobj. unfold float16_dict_from_npz_path. rewrite Hload.
  rewrite (mapM_result_ok _
             (prod_map id
                (λ m, if decide (kind (arr_dtype (stored m)) = "f"%char)
                      then astype cast float16 (stored m) else stored m))).
  - f_equal. rewrite list_to_map_fmap, list_to_map_to_list.
    unfold float16_dict_from_npz. by rewrite <- map_fmap_compose.
  - apply Forall_forall. intros [k m] Hkm%elem_of_map_to_list. simpl.
    by rewrite (read_array_ok m (Hobj k m Hkm)).
Qed.



End LoaderClaims.




Lemma float_entries_become_float16_witness :
  ∃ v', float16_dict_from_npz (λ _ _ (x : Z), x)
          {["w" := Ndarray float64 [3%nat] [1; 2; 3]%Z]} !! "w" = Some v'
        ∧ arr_dtype v' = float16
        ∧ itemsize (arr_dtype v') = 2%nat
        ∧ shape v' = [3%nat]
        ∧ items v' = (λ x : Z, x) <$> [1; 2; 3]%Z.
Proof.
  apply (float_entries_become_float16 (λ _ _ (x : Z), x)
           {["w" := Ndarray float64 [3%nat] [1; 2; 3]%Z]} "w"
           (Ndarray float64 [3%nat] [1; 2; 3]%Z)).
  - apply lookup_singleton_eq.
  - reflexivity.
Defined.

(** * Further properties of the two files *)

Section MoreResultLemmas.
Context {A B : Type}.

Lemma mapM_result_app_bind (f : A → result B) (l k : list A) :
  mapM f (l ++ k) = x ← mapM f l; y ← mapM f k; mret (x ++ y).
Proof.
  induction l as [|a l IH].
  - rewrite app_nil_l, mapM_result_nil, result_bind_ok.
    destruct (mapM f k); done.
  - rewrite <- app_comm_cons, !mapM_result_cons, IH.
    destruct (f a) as [y|e]; [|done]. rewrite !result_bind_ok.
    destruct (mapM f l) as [ys|e]; [|done]. rewrite !result_bind_ok.
    destruct (mapM f k); done.
Qed.
End MoreResultLemmas.

Lemma chunks_app {A} (n k : nat) (l1 l2 : list A) :
  (0 < n)%nat → length l1 = (k * n)%nat →
  chunks n (l1 ++ l2) = chunks n l1 ++ chunks n l2.
Proof.
  intros Hn Hl. destruct (chunks_exact n k l1 Hn Hl) as (Hall & _ & Hjoin).
  rewrite <- Hjoin at 1. by apply chunks_blocks.
Qed.

(** The number of zero bytes that decoding appends to an encoded sequence
    of [n] bytes: one when the padding holds 8 bits or more. *)
Definition stray_zero_bytes (n : nat) : nat :=
  ((13 - (8 * n) mod 13) mod 13 / 8)%nat.

(** The bit string of a text of alphabet symbols, and the bytes it holds. *)
Definition text_bits (text : list N) : list bool :=
  mjoin (Decoder.bits_of_symbol <$> text).

Definition decode_bits (bits : list bool) : list byte :=
  Decoder.byte_of_group <$> complete_groups (byte_groups bits).

Section CodecLemmas.
Import Alphabet Encoder Decoder RoundTrip.

Lemma from_chinese_base8192_good (text : list N) :
  Forall (λ ch, ch ∈ CHINESE_CHARS) text →
  from_chinese_base8192 text = Ok (decode_bits (text_bits text)).
Proof.
  intros Htext. rewrite from_chinese_base8192_unfold, symbol_bits_ok by done.
  rewrite result_bind_ok. apply mapM_result_ok, Forall_forall.
  intros g Hg. unfold complete_groups in Hg.
  apply list_elem_of_filter in Hg as [Hlen _]. by apply decode_group_ok.
Qed.

Lemma from_chinese_base8192_raise (l k : list N) (bad : N) :
  Forall (λ c, c ∈ CHINESE_CHARS) l → bad ∉ CHINESE_CHARS →
  from_chinese_base8192 (l ++ bad :: k) = Raise (KeyError bad).
Proof.
  intros Hl Hbad.
  rewrite from_chinese_base8192_unfold, symbol_bits_raise by done. done.
Qed.

Lemma text_cases (text : list N) :
  Forall (λ ch, ch ∈ CHINESE_CHARS) text
  ∨ ∃ l bad k, text = l ++ bad :: k
               ∧ Forall (λ c, c ∈ CHINESE_CHARS) l ∧ (bad ∉ CHINESE_CHARS).
Proof.
  destruct (decide (Forall (λ ch, ch ∈ CHINESE_CHARS) text)) as [H|H];
    [by left|right].
  apply not_Forall_Exists in H; [|apply _].
  apply Exists_exists in H as (ch & Hin & Hout).
  by apply (first_outside_alphabet text ch).
Qed.

Lemma text_bits_app (t1 t2 : list N) :
  text_bits (t1 ++ t2) = text_bits t1 ++ text_bits t2.
Proof. unfold text_bits. by rewrite fmap_app, join_app. Qed.

Lemma text_bits_length (text : list N) :
  Forall (λ ch, ch ∈ CHINESE_CHARS) text →
  length (text_bits text) = (13 * length text)%nat.
Proof. apply symbol_bits_length. Qed.

Lemma decode_bits_app (j : nat) (b1 b2 : list bool) :
  length b1 = (j * 8)%nat →
  decode_bits (b1 ++ b2) = decode_bits b1 ++ decode_bits b2.
Proof.
  intros Hb. unfold decode_bits, byte_groups, complete_groups.
  fold (chunks 8 (b1 ++ b2)) (chunks 8 b1) (chunks 8 b2).
  rewrite (chunks_app 8 j) by (done || lia).
  by rewrite filter_app, fmap_app.
Qed.

Lemma from_to_chinese_base8192_text (data : list byte) :
  ∃ text, to_chinese_base8192 data = Ok text
          ∧ from_chinese_base8192 text
            = Ok (data ++ replicate (stray_zero_bytes (length data)) "000"%byte).
Proof.
  pose proof (from_to_chinese_base8192 data) as H.
  rewrite to_chinese_base8192_ok, result_bind_ok in H.
  eexists. split; [apply to_chinese_base8192_ok|exact H].
Qed.

Lemma inference_from_chinese_base8192 (text : list N) :
  Inference.from_chinese_base8192 text = from_chinese_base8192 text.
Proof.
  unfold Inference.from_chinese_base8192, from_chinese_base8192.
  unfold symbol_bits, byte_groups, complete_groups.
  rewrite CHAR_TO_VAL_copies. reflexivity.
Qed.
End CodecLemmas.

(** ** The codec, beyond the claims *)

Section CodecExtras.
Import Alphabet Encoder Decoder RoundTrip.

(** X1: decoding an encoded byte sequence returns the sequence followed by
    at most one zero byte, and by one exactly when (8*N) % 13 is between 1
    and 5 (the padding then holds 8 bits or more). *)
Theorem decode_encode_appends_zero_bytes (data : list byte) :
  ∃ text,
    to_chinese_base8192 data = Ok text
    ∧ from_chinese_base8192 text
      = Ok (data ++ replicate (stray_zero_bytes (length data)) "000"%byte)
    ∧ (stray_zero_bytes (length data) ≤ 1)%nat
    ∧ (stray_zero_bytes (length data) = 1%nat
       ↔ (1 ≤ (8 * length data) mod 13 ≤ 5)%nat).
Proof.
  destruct (from_to_chinese_base8192_text data) as (text & He & Hd).
  exists text. split_and!; [done|done| |]; unfold stray_zero_bytes; div_lia.
Qed.

(** X2: decoding the encoding gives back exactly the input if and only if
    (8*N) % 13 is 0 or at least 6. *)
Theorem roundtrip_exact_iff (data : list byte) :
  to_chinese_base8192 data ≫= from_chinese_base8192 = Ok data
  ↔ ((8 * length data) mod 13 = 0 ∨ 6 ≤ (8 * length data) mod 13)%nat.
Proof.
  rewrite from_to_chinese_base8192.
  fold (stray_zero_bytes (length data)).
  assert (stray_zero_bytes (length data) = 0%nat
          ↔ ((8 * length data) mod 13 = 0 ∨ 6 ≤ (8 * length data) mod 13)%nat)
    as <- by (unfold stray_zero_bytes; div_lia).
  split.
  - intros [= H]. apply (f_equal length) in H.
    rewrite length_app, length_replicate in H. lia.
  - intros ->. by rewrite app_nil_r.
Qed.

(** X3: the encoder is not injective.  When the padding of [data] holds 8
    bits or more, [data] and [data] followed by a zero byte have the same
    encoding. *)
Theorem encoder_absorbs_zero_byte (data : list byte) :
  (8 ≤ (13 - (8 * length data) mod 13) mod 13)%nat →
  to_chinese_base8192 (data ++ ["000"%byte]) = to_chinese_base8192 data.
Proof.
  intros Hpad. rewrite !to_chinese_base8192_ok. do 3 f_equal.
  rewrite !pad13_spec, !byte_bits_length, length_app. simpl length.
  unfold byte_bits. rewrite fmap_app, join_app. simpl mjoin.
  change [false; false; false; false; false; false; false; false]
    with (replicate 8 false).
  rewrite <- app_assoc, <- replicate_add. do 2 f_equal.
  div_lia.
Qed.

Lemma encoder_absorbs_zero_byte_witness :
  to_chinese_base8192 (["a"%byte; "b"%byte] ++ ["000"%byte])
  = to_chinese_base8192 ["a"%byte; "b"%byte].
Proof.
  apply (encoder_absorbs_zero_byte ["a"%byte; "b"%byte]).
  vm_compute. lia.
Defined.

(** X4: on byte sequences of one length the encoder is injective. *)
Theorem encoder_injective_same_length (a b : list byte) :
  length a = length b →
  to_chinese_base8192 a = to_chinese_base8192 b → a = b.
Proof.
  intros Hlen Henc.
  pose proof (from_to_chinese_base8192 a) as Ha.
  pose proof (from_to_chinese_base8192 b) as Hb.
  rewrite Henc, Hb, Hlen in Ha. injection Ha as Ha.
  by apply app_inv_tail in Ha.
Qed.

Lemma encoder_injective_same_length_witness :
  ["a"%byte; "b"%byte] = ["a"%byte; "b"%byte].
Proof.
  apply (encoder_injective_same_length ["a"%byte; "b"%byte]
           ["a"%byte; "b"%byte]); reflexivity.
Defined.

(** X5: every symbol the encoder writes is in the alphabet, that is a code
    point from U+4E00 to U+6DFF. *)
Theorem encoder_output_in_alphabet (data : list byte) :
  ∃ text,
    to_chinese_base8192 data = Ok text
    ∧ Forall (λ ch, ch ∈ CHINESE_CHARS ∧ 0x4E00 ≤ ch ≤ 0x6DFF) text.
Proof.
  eexists. split; [apply to_chinese_base8192_ok|].
  destruct (chunks_exact 13 ((length (byte_bits data) + 12) / 13)
              (pad13 (byte_bits data)))
    as (Hall & _ & _); [lia|apply pad13_length|].
  apply Forall_fmap. eapply Forall_impl; [exact Hall|].
  intros c Hc. simpl.
  pose proof (symbol_of_group_elem c Hc) as Hin. split; [done|].
  apply elem_of_CHINESE_CHARS in Hin. lia.
Qed.

(** X6: the decoder returns bytes exactly on the texts made of alphabet
    symbols only; on any other text it raises, and what it raises is the
    [KeyError] of a character of the text that is outside the alphabet,
    never a [ValueError] or an [IndexError]. *)
Theorem decoder_succeeds_iff (text : list N) :
  ((∃ bs, from_chinese_base8192 text = Ok bs)
   ↔ Forall (λ ch, 0x4E00 ≤ ch ≤ 0x6DFF) text)
  ∧ ∀ e, from_chinese_base8192 text = Raise e →
         ∃ ch, e = KeyError ch ∧ ch ∈ text ∧ ¬ (0x4E00 ≤ ch ≤ 0x6DFF).
Proof.
  assert (∀ ch, ch ∈ CHINESE_CHARS ↔ 0x4E00 ≤ ch ≤ 0x6DFF) as Hrange
    by (intros ch; rewrite elem_of_CHINESE_CHARS; lia).
  destruct (text_cases text) as [Hgood|(l & bad & k & -> & Hl & Hbad)].
  - rewrite from_chinese_base8192_good by done. split; [|discriminate].
    split; [intros _|by eauto].
    eapply Forall_impl; [exact Hgood|]. intros ch. apply Hrange.
  - rewrite from_chinese_base8192_raise by done. split.
    + split; [by intros [bs ?]|].
      intros H. apply Forall_app in H as [_ H].
      apply Forall_cons in H as [H _]. by apply Hrange in H.
    + intros e [= <-]. exists bad. split_and!; [done| |by rewrite <- Hrange].
      apply elem_of_app. right. apply elem_of_cons. by left.
Qed.
End CodecExtras.

(** ** How the two directions compose *)

Section CompositionLemmas.
Import Alphabet Encoder Decoder RoundTrip.

Lemma byte_bits_app (a b : list byte) :
  byte_bits (a ++ b) = byte_bits a ++ byte_bits b.
Proof. unfold byte_bits. by rewrite fmap_app, join_app. Qed.

Lemma pad13_aligned (bits : list bool) :
  (length bits mod 13 = 0)%nat → pad13 bits = bits.
Proof.
  intros Hm. rewrite pad13_spec, Hm. simpl. by rewrite app_nil_r.
Qed.

Lemma pad13_app_aligned (b1 b2 : list bool) :
  (length b1 mod 13 = 0)%nat → pad13 (b1 ++ b2) = b1 ++ pad13 b2.
Proof.
  intros Hm. rewrite !pad13_spec, length_app, <- app_assoc. do 3 f_equal.
  div_lia.
Qed.

Lemma group_of_byte_of_group (g : list bool) :
  length g = 8%nat → format_b 8 (Byte.to_N (byte_of_group g)) = g.
Proof.
  intros Hg. unfold byte_of_group.
  pose proof (bits_val_bound g) as Hb. rewrite Hg in Hb.
  change (2 ^ N.of_nat 8) with 256 in Hb.
  destruct (Byte.of_N (bits_val g)) as [x|] eqn:Hx.
  - apply Byte.to_of_N in Hx. simpl. rewrite Hx.
    apply format_b_bits_val; [lia|done].
  - apply Byte.of_N_None_iff in Hx. lia.
Qed.

Lemma symbol_of_group_of_symbol (ch : N) :
  ch ∈ CHINESE_CHARS → symbol_of_group (bits_of_symbol ch) = ch.
Proof.
  intros Hch%elem_of_CHINESE_CHARS.
  unfold symbol_of_group, bits_of_symbol, chr.
  rewrite bits_val_format_b. lia.
Qed.

Lemma chunks_text_bits (text : list N) :
  Forall (λ ch, ch ∈ CHINESE_CHARS) text →
  chunks 13 (text_bits text) = bits_of_symbol <$> text.
Proof.
  intros Htext. unfold text_bits.
  rewrite <- (app_nil_r (mjoin (bits_of_symbol <$> text))).
  rewrite chunks_blocks, chunks_nil, app_nil_r; [done|lia|lia|].
  apply Forall_fmap. eapply Forall_impl; [exact Htext|].
  intros ch Hch. simpl. by apply bits_of_symbol_length.
Qed.
End CompositionLemmas.

Section CompositionExtras.
Import Alphabet Encoder Decoder RoundTrip.

(** X7: encoding what the decoder returns gives the text back, for a text of
    alphabet symbols whose length is a multiple of 8 (its 13*len bits are
    then whole bytes and nothing is dropped). *)
Theorem encode_decode_whole_blocks (text : list N) :
  Forall (λ ch, ch ∈ CHINESE_CHARS) text →
  (length text mod 8 = 0)%nat →
  from_chinese_base8192 text ≫= to_chinese_base8192 = Ok text.
Proof.
  intros Htext Hlen.
  rewrite from_chinese_base8192_good, result_bind_ok by done.
  rewrite to_chinese_base8192_ok. f_equal.
  pose proof (text_bits_length text Htext) as Hbits.
  destruct (chunks_exact 8 (13 * (length text / 8)) (text_bits text))
    as (Hall & _ & Hjoin); [lia|rewrite Hbits; div_lia|].
  assert (byte_bits (decode_bits (text_bits text)) = text_bits text) as ->.
  { unfold decode_bits, byte_bits, complete_groups, byte_groups.
    fold (chunks 8 (text_bits text)).
    rewrite filter_Forall by done. rewrite <- list_fmap_compose.
    rewrite <- Hjoin at 2. f_equal.
    rewrite <- (list_fmap_id (chunks 8 (text_bits text))) at 2.
    apply Forall_fmap_ext. eapply Forall_impl; [exact Hall|].
    intros g Hg. simpl. by apply group_of_byte_of_group. }
  rewrite pad13_aligned by (rewrite Hbits; div_lia).
  rewrite chunks_text_bits by done.
  rewrite <- list_fmap_compose.
  rewrite <- (list_fmap_id text) at 2.
  apply Forall_fmap_ext. eapply Forall_impl; [exact Htext|].
  intros ch Hch. simpl. by apply symbol_of_group_of_symbol.
Qed.

Lemma encode_decode_whole_blocks_witness :
  from_chinese_base8192 (replicate 8 0x4E2D) ≫= to_chinese_base8192
  = Ok (replicate 8 0x4E2D).
Proof.
  apply (encode_decode_whole_blocks (replicate 8 0x4E2D)).
  - apply Forall_replicate. apply elem_of_CHINESE_CHARS. lia.
  - reflexivity.
Defined.

(** X8: the decoder works block by block.  When the first part of a text
    has a multiple of 8 symbols, decoding the whole text is decoding the two
    parts one after the other, the exception of the first failing part
    included. *)
Theorem decoder_app (t1 t2 : list N) :
  (length t1 mod 8 = 0)%nat →
  from_chinese_base8192 (t1 ++ t2)
  = b1 ← from_chinese_base8192 t1;
    b2 ← from_chinese_base8192 t2;
    mret (b1 ++ b2).
Proof.
  intros Hlen.
  destruct (text_cases t1) as [H1|(l & bad & k & -> & Hl & Hbad)].
  - destruct (text_cases t2) as [H2|(l & bad & k & -> & Hl & Hbad)].
    + rewrite !from_chinese_base8192_good, !result_bind_ok
        by (done || by apply Forall_app).
      rewrite text_bits_app.
      rewrite (decode_bits_app (13 * (length t1 / 8))); [done|].
      rewrite text_bits_length by done. div_lia.
    + rewrite (from_chinese_base8192_good t1), result_bind_ok by done.
      rewrite (from_chinese_base8192_raise l k bad) by done.
      rewrite app_assoc.
      rewrite from_chinese_base8192_raise by (done || by apply Forall_app).
      done.
  - rewrite <- app_assoc, <- app_comm_cons.
    rewrite !from_chinese_base8192_raise by done. done.
Qed.

Lemma decoder_app_witness :
  from_chinese_base8192 (replicate 8 0x4E2D ++ [0x6587])
  = b1 ← from_chinese_base8192 (replicate 8 0x4E2D);
    b2 ← from_chinese_base8192 [0x6587];
    mret (b1 ++ b2).
Proof. apply (decoder_app (replicate 8 0x4E2D) [0x6587]). reflexivity. Defined.

(** X9: the encoder works block by block.  When the first part has a
    multiple of 13 bytes, the encoding of the whole is the encoding of the
    first part followed by the encoding of the second. *)
Theorem encoder_app (a b : list byte) :
  (length a mod 13 = 0)%nat →
  to_chinese_base8192 (a ++ b)
  = x ← to_chinese_base8192 a;
    y ← to_chinese_base8192 b;
    mret (x ++ y).
Proof.
  intros Hlen. rewrite !to_chinese_base8192_ok, !result_bind_ok.
  change (mret ?x) with (Ok x). f_equal.
  rewrite <- fmap_app. f_equal.
  pose proof (byte_bits_length a) as Ha.
  rewrite byte_bits_app, pad13_app_aligned by (rewrite Ha; div_lia).
  rewrite (pad13_aligned (byte_bits a)) by (rewrite Ha; div_lia).
  apply (chunks_app 13 (8 * (length a / 13))); [lia|].
  rewrite Ha. div_lia.
Qed.

Lemma encoder_app_witness :
  to_chinese_base8192 (replicate 13 "a"%byte ++ ["b"%byte])
  = x ← to_chinese_base8192 (replicate 13 "a"%byte);
    y ← to_chinese_base8192 ["b"%byte];
    mret (x ++ y).
Proof.
  apply (encoder_app (replicate 13 "a"%byte) ["b"%byte]). reflexivity.
Defined.

(** X10: [CHAR_TO_VAL] holds exactly the 8192 code points U+4E00..U+6DFF,
    each mapped to its offset from U+4E00, and the table of inference.py is
    the same table. *)
Theorem CHAR_TO_VAL_exact (ch v : N) :
  (CHAR_TO_VAL !! ch = Some v ↔ v < 8192 ∧ ch = 0x4E00 + v)
  ∧ Inference.CHAR_TO_VAL !! ch = CHAR_TO_VAL !! ch.
Proof.
  split; [|by rewrite CHAR_TO_VAL_copies]. split.
  - intros Hv. destruct (decide (ch ∈ CHINESE_CHARS)) as [Hin|Hout].
    + apply elem_of_CHINESE_CHARS in Hin.
      pose proof (CHAR_TO_VAL_lookup (ch - 0x4E00)) as H.
      unfold chr in H.
      replace (0x4E00 + (ch - 0x4E00)) with ch in H by lia.
      rewrite H in Hv by lia. injection Hv as <-. lia.
    + rewrite CHAR_TO_VAL_None in Hv by done. done.
  - intros [Hv ->]. by apply CHAR_TO_VAL_lookup.
Qed.

(** X11: the decoder of inference.py reads what the encoder of optimizer.py
    writes: it returns the encoded bytes, followed by the same stray zero
    byte as the decoder of optimizer.py. *)
Theorem inference_decodes_optimizer_encoding (data : list byte) :
  ∃ text,
    to_chinese_base8192 data = Ok text
    ∧ Inference.from_chinese_base8192 text
      = Ok (data ++ replicate (stray_zero_bytes (length data)) "000"%byte)
    ∧ take (length data)
        (data ++ replicate (stray_zero_bytes (length data)) "000"%byte)
      = data.
Proof.
  destruct (from_to_chinese_base8192_text data) as (text & He & Hd).
  exists text. split_and!; [done| |by rewrite take_app_length].
  by rewrite inference_from_chinese_base8192.
Qed.
End CompositionExtras.

(** ** The precision reducer, beyond the claims *)

Section ReducerExtras.
Context {scalar : Type} (cast : dtype → dtype → scalar → scalar).
Implicit Types (data : gmap string (ndarray scalar)) (k : string).

(** X12: the reducer invents no entry and loses none, and for every entry
    it keeps the kind of the element type, the shape and the number of
    elements. *)
Theorem reducer_preserves_layout data k :
  match data !! k with
  | None => float16_dict_from_npz cast data !! k = None
  | Some v =>
    ∃ v', float16_dict_from_npz cast data !! k = Some v'
          ∧ kind (arr_dtype v') = kind (arr_dtype v)
          ∧ shape v' = shape v
          ∧ length (items v') = length (items v)
  end.
Proof.
  rewrite float16_dict_from_npz_lookup.
  destruct (data !! k) as [v|]; simpl; [|done].
  case_decide as Hkind; eexists; (split; [reflexivity|]); simpl.
  - by rewrite Hkind, length_fmap.
  - done.
Qed.

(** X13: in the reducer's output every entry of floating kind has element
    type exactly float16, and every other entry is an entry of the input,
    untouched. *)
Theorem reducer_output_invariant data k (v' : ndarray scalar) :
  float16_dict_from_npz cast data !! k = Some v' →
  (kind (arr_dtype v') = "f"%char → arr_dtype v' = float16)
  ∧ (kind (arr_dtype v') ≠ "f"%char → data !! k = Some v').
Proof.
  rewrite float16_dict_from_npz_lookup.
  destruct (data !! k) as [v|] eqn:Hk; simpl; [|done].
  case_decide as Hkind; intros [= <-]; simpl; split; done.
Qed.

(** X14: reducing twice is reducing once, as long as converting a float16
    element to float16 leaves it as it is. *)
Theorem reducer_idempotent data :
  (∀ x, cast float16 float16 x = x) →
  float16_dict_from_npz cast (float16_dict_from_npz cast data)
  = float16_dict_from_npz cast data.
Proof.
  intros Hcast. unfold float16_dict_from_npz.
  rewrite <- map_fmap_compose. apply map_fmap_ext.
  intros k v _. unfold compose.
  destruct (decide (kind (arr_dtype v) = "f"%char)) as [Hkind|Hkind].
  - rewrite decide_True by reflexivity. unfold astype. simpl. f_equal.
    rewrite <- list_fmap_compose.
    apply list_fmap_ext. intros i x _. simpl. apply Hcast.
  - by rewrite decide_False.
Qed.
End ReducerExtras.

Lemma reducer_output_invariant_witness :
  (kind (arr_dtype (Ndarray float16 [2%nat] [4; 5]%Z)) = "f"%char
   → arr_dtype (Ndarray float16 [2%nat] [4; 5]%Z) = float16)
  ∧ (kind (arr_dtype (Ndarray float16 [2%nat] [4; 5]%Z)) ≠ "f"%char
     → ({["w" := Ndarray float64 [2%nat] [4; 5]%Z]}
          : gmap string (ndarray Z)) !! "w"
       = Some (Ndarray float16 [2%nat] [4; 5]%Z)).
Proof.
  apply (reducer_output_invariant (λ _ _ (x : Z), x)
           {["w" := Ndarray float64 [2%nat] [4; 5]%Z]} "w"
           (Ndarray float16 [2%nat] [4; 5]%Z)).
  rewrite float16_dict_from_npz_lookup, lookup_singleton_eq. reflexivity.
Defined.

Lemma reducer_idempotent_witness :
  float16_dict_from_npz (λ _ _ (x : Z), x)
    (float16_dict_from_npz (λ _ _ (x : Z), x)
       {["w" := Ndarray float64 [2%nat] [4; 5]%Z]})
  = float16_dict_from_npz (λ _ _ (x : Z), x)
      {["w" := Ndarray float64 [2%nat] [4; 5]%Z]}.
Proof.
  apply (reducer_idempotent (λ _ _ (x : Z), x)
           {["w" := Ndarray float64 [2%nat] [4; 5]%Z]}).
  intros x. reflexivity.
Defined.

(** ** The pipeline: [compress_model_to_chinese] and the two
    [decompress_model_from_chinese] *)

Section PipelineExtras.
Context {scalar : Type} (cast : dtype → dtype → scalar → scalar).
Variable pickle_dumps : gmap string (ndarray scalar) → list byte.
Variable pickle_loads : list byte → option (gmap string (ndarray scalar)).
Variable zlib_compress : N → list byte → list byte.
Variable zlib_decompress : list byte → option (list byte).
Context {fs : Type}.
Variable np_load : fs → string → option (gmap string (npy scalar)).
Variable write_text : string → list N → fs → option fs.
Implicit Types (obj : gmap string (ndarray scalar)) (encoded : list N).
Implicit Types (npz_path output_path : string) (σ : fs).

(** The weights that [float16_dict_from_npz] returns for an archive whose
    members can all be read. *)
Definition reduced_model (data : gmap string (npy scalar))
  : gmap string (ndarray scalar) :=
  float16_dict_from_npz cast (stored <$> data).

(** The bytes [compress_model_to_chinese] hands to the encoder. *)
Definition compressed_model obj : list byte :=
  zlib_compress 9 (pickle_dumps obj).

(** What [decompress_model_from_chinese] makes of the bytes it decoded. *)
Definition load_compressed (compressed : list byte)
  : outcome (gmap string (ndarray scalar)) :=
  match zlib_decompress compressed with
  | None => Failed ZlibError
  | Some raw =>
    match pickle_loads raw with
    | None => Failed UnpicklingError
    | Some weights => Done weights
    end
  end.

Lemma decompress_model_from_chinese_ok encoded (compressed : list byte) :
  from_chinese_base8192 encoded = Ok compressed →
  decompress_model_from_chinese pickle_loads zlib_decompress encoded
  = load_compressed compressed.
Proof. intros H. unfold decompress_model_from_chinese. by rewrite H. Qed.

Lemma compress_model_to_chinese_loaded npz_path output_path σ obj :
  float16_dict_from_npz_path cast (np_load σ) npz_path = Done obj →
  ∃ encoded,
    to_chinese_base8192 (compressed_model obj) = Ok encoded
    ∧ from_chinese_base8192 encoded
      = Ok (compressed_model obj
            ++ replicate (stray_zero_bytes (length (compressed_model obj)))
                         "000"%byte)
    ∧ compress_model_to_chinese cast pickle_dumps zlib_compress
        np_load write_text npz_path output_path σ
      = match write_text output_path encoded σ with
        | None => Failed WriteError
        | Some σ' => Done σ'
        end.
Proof.
  intros Hobj.
  destruct (from_to_chinese_base8192_text (compressed_model obj))
    as (encoded & He & Hd).
  exists encoded. split_and!; [done|done|].
  unfold compress_model_to_chinese. rewrite Hobj. cbv zeta.
  fold (compressed_model obj). by rewrite He.
Qed.

(** X15: the two copies of [decompress_model_from_chinese] are the same
    function of the text and of the two libraries. *)
Theorem decompress_model_copies_agree encoded :
  Inference.decompress_model_from_chinese pickle_loads zlib_decompress encoded
  = decompress_model_from_chinese pickle_loads zlib_decompress encoded.
Proof.
  unfold Inference.decompress_model_from_chinese,
    decompress_model_from_chinese.
  by rewrite inference_from_chinese_base8192.
Qed.

(** X16: a character outside the alphabet makes
    [decompress_model_from_chinese] fail with the codec's [KeyError] for the
    first such character, whatever decompression and unpickling would do. *)
Theorem decompress_model_unknown_symbol (l k : list N) (bad : N) :
  Forall (λ c, c ∈ CHINESE_CHARS) l → bad ∉ CHINESE_CHARS →
  decompress_model_from_chinese pickle_loads zlib_decompress (l ++ bad :: k)
  = Failed (CodecError (KeyError bad)).
Proof.
  intros Hl Hbad. unfold decompress_model_from_chinese.
  by rewrite from_chinese_base8192_raise.
Qed.


(** X18: the model comes back.  Take an archive that [np.load] opens and
    whose members can all be read, and an output path that can be written.
    If [zlib.decompress] returns the pickled bytes when given the compressed
    bytes followed by the codec's stray zero byte, and [pickle.loads]
    returns the reduced weights from their pickle, then
    [compress_model_to_chinese] returns, and decompressing the text it wrote
    gives exactly the reduced weights. *)
Theorem model_roundtrip npz_path output_path σ
    (data : gmap string (npy scalar)) :
  np_load σ npz_path = Some data →
  (∀ k m, data !! k = Some m → hasobject m = false) →
  (∀ text, is_Some (write_text output_path text σ)) →
  zlib_decompress
    (compressed_model (reduced_model data)
     ++ replicate
          (stray_zero_bytes (length (compressed_model (reduced_model data))))
          "000"%byte)
  = Some (pickle_dumps (reduced_model data)) →
  pickle_loads (pickle_dumps (reduced_model data))
  = Some (reduced_model data) →
  ∃ encoded σ',
    compress_model_to_chinese cast pickle_dumps zlib_compress
      np_load write_text npz_path output_path σ
    = Done σ'
    ∧ write_text output_path encoded σ = Some σ'
    ∧ decompress_model_from_chinese pickle_loads zlib_decompress encoded
      = Done (reduced_model data).
Proof.
  intros Hload Hread Hwrite Hz Hp.
  pose proof (float16_dict_from_npz_path_ok cast (np_load σ) npz_path data
                Hload Hread) as Hred.
  fold (reduced_model data) in Hred.
  destruct (compress_model_to_chinese_loaded npz_path output_path σ
              (reduced_model data) Hred)
    as (encoded & He & Hd & Hc).
  destruct (Hwrite encoded) as [σ' Hw].
  exists encoded, σ'. rewrite Hc, Hw. split_and!; [done|done|].
  rewrite (decompress_model_from_chinese_ok encoded _ Hd).
  unfold load_compressed. by rewrite Hz, Hp.
Qed.
End PipelineExtras.

(** Stand-ins for the libraries and the disk.  Pickling writes the index of
    the object in a list of known objects and unpickling reads it back;
    compression stores the bytes behind their count, and decompression reads
    the count and that many bytes, ignoring what follows.  The disk is a
    mapping from paths to texts on which every write succeeds. *)
#[global] Instance dtype_eq_dec : EqDecision dtype.
Proof. solve_decision. Defined.
#[global] Instance ndarray_eq_dec `{EqDecision A} : EqDecision (ndarray A).
Proof. solve_decision. Defined.

Definition toy_cast : dtype → dtype → Z → Z := λ _ _ x, x.
Definition toy_archive : gmap string (npy Z) :=
  {["w" := Npy false (Ndarray float64 [2%nat] [4; 5]%Z)]}.
Definition toy_known : list (gmap string (ndarray Z)) :=
  [∅; reduced_model toy_cast toy_archive].
Definition toy_dumps (obj : gmap string (ndarray Z)) : list byte :=
  match list_find (λ o, o = obj) toy_known with
  | Some (i, _) => [default "000"%byte (Byte.of_N (N.of_nat i))]
  | None => []
  end.
Definition toy_loads (raw : list byte) : option (gmap string (ndarray Z)) :=
  match raw with
  | [b] => toy_known !! N.to_nat (Byte.to_N b)
  | _ => None
  end.
Definition toy_compress (level : N) (raw : list byte) : list byte :=
  default "000"%byte (Byte.of_N (N.of_nat (length raw))) :: raw.
Definition toy_decompress (compressed : list byte) : option (list byte) :=
  match compressed with
  | [] => None
  | n :: rest =>
    if decide (N.to_nat (Byte.to_N n) ≤ length rest)%nat
    then Some (take (N.to_nat (Byte.to_N n)) rest) else None
  end.
Definition toy_np_load (σ : gmap string (list N)) (npz_path : string)
  : option (gmap string (npy Z)) :=
  if decide (npz_path = "model.npz") then Some toy_archive else None.
Definition toy_write_text (output_path : string) (text : list N)
    (σ : gmap string (list N)) : option (gmap string (list N)) :=
  Some (<[output_path := text]> σ).

Lemma decompress_model_unknown_symbol_witness :
  decompress_model_from_chinese toy_loads toy_decompress
    ([0x4E00] ++ 0x41 :: [0x4E01])
  = Failed (CodecError (KeyError 0x41)).
Proof.
  apply (decompress_model_unknown_symbol toy_loads toy_decompress
           [0x4E00] [0x4E01] 0x41).
  - apply Forall_cons. split; [|apply Forall_nil_2].
    apply Alphabet.elem_of_CHINESE_CHARS. lia.
  - rewrite Alphabet.elem_of_CHINESE_CHARS. lia.
Defined.

(** Here the compressed model has two bytes, so the decoder appends a zero
    byte to them: [stray_zero_bytes 2 = 1]. *)
Lemma model_roundtrip_witness :
  stray_zero_bytes
    (length (compressed_model toy_dumps toy_compress
               (reduced_model toy_cast toy_archive)))
  = 1%nat
  ∧ ∃ encoded σ',
      compress_model_to_chinese toy_cast toy_dumps toy_compress
        toy_np_load toy_write_text "model.npz" "model.txt" ∅
      = Done σ'
      ∧ toy_write_text "model.txt" encoded ∅ = Some σ'
      ∧ decompress_model_from_chinese toy_loads toy_decompress encoded
        = Done (reduced_model toy_cast toy_archive).
Proof.
  split; [vm_compute; reflexivity|].
  apply (model_roundtrip toy_cast toy_dumps toy_loads toy_compress
           toy_decompress toy_np_load toy_write_text
           "model.npz" "model.txt" ∅ toy_archive).
  - reflexivity.
  - intros k m Hkm. unfold toy_archive in Hkm.
    apply lookup_singleton_Some in Hkm as [_ <-]. reflexivity.
  - intros text. eexists. reflexivity.
  - vm_compute. reflexivity.
  - vm_compute. reflexivity.
Defined.
